(** * ip_isr: instrument signature removal tasks

    A shallow embedding of [python/lsst/ip/isr/proportionalLinearize.py]
    (ProportionalLinearizeTask) and of the orchestration in
    [python/lsst/ip/isr/isrTask.py] (IsrTask).

    Pixel values and coefficients are modelled as rationals [Q]: the
    arithmetic of the floating-point planes is taken exactly.  Python
    exceptions are modelled by an error-and-state monad in which an
    exception keeps every in-place mutation performed before it, because
    the code mutates the framework's image buffers in place and never
    restores them. *)

From Stdlib Require Import ZArith QArith String List Bool Lia.
Import ListNotations.

(** ** Python exceptions and the error-and-state monad *)

Inductive PyErr :=
| RuntimeError (msg : string)
| ValueError (msg : string)
| IndexError (msg : string)
| NameError (name : string)
| AttributeError (name : string)
(** [lsst::pex::exceptions::LengthError], raised by the framework when a
    sub-image box does not fit in its parent image. *)
| LengthError (msg : string).

Inductive Result (A : Type) :=
| Ok (a : A)
| Err (e : PyErr).
Arguments Ok {A} a.
Arguments Err {A} e.

Definition M (S A : Type) : Type := S -> Result A * S.

Definition ret {S A} (a : A) : M S A := fun s => (Ok a, s).

Definition bind {S A B} (m : M S A) (k : A -> M S B) : M S B :=
  fun s =>
    match m s with
    | (Ok a, s') => k a s'
    | (Err e, s') => (Err e, s')
    end.

Definition raise {S A} (e : PyErr) : M S A := fun s => (Err e, s).
Definition get {S} : M S S := fun s => (Ok s, s).
Definition put {S} (s : S) : M S unit := fun _ => (Ok tt, s).

Notation "x <- m ;; k" := (bind m (fun x => k))
  (at level 61, m at next level, right associativity).
Notation "m ;; k" := (bind m (fun _ => k))
  (at level 61, right associativity).

(** Python float comparisons on [Q]. *)
Definition Qlt_bool (x y : Q) : bool := negb (Qle_bool y x).

(** ** ProportionalLinearizeTask *)

Module Linearize.

(** [lsst.afw.geom.Box2I]: a minimum corner and dimensions. *)
Record Box2I := {
  box_minX : Z;
  box_minY : Z;
  box_width : Z;
  box_height : Z
}.

Definition box_contains (b : Box2I) (x y : Z) : bool :=
  (box_minX b <=? x)%Z && (x <? box_minX b + box_width b)%Z &&
  (box_minY b <=? y)%Z && (y <? box_minY b + box_height b)%Z.

(** The framework's check that a sub-image box lies inside its parent. *)
Definition box_within (inner outer : Box2I) : bool :=
  (box_minX outer <=? box_minX inner)%Z &&
  (box_minX inner + box_width inner <=? box_minX outer + box_width outer)%Z &&
  (box_minY outer <=? box_minY inner)%Z &&
  (box_minY inner + box_height inner <=? box_minY outer + box_height outer)%Z.

(** An amplifier of [lsst.afw.cameraGeom]: name, data box and linearity
    model. *)
Record Amp := {
  amp_name : string;
  amp_bbox : Box2I;
  amp_linearityType : string;
  amp_linearityCoeffs : list Q
}.

(** A detector is iterated as its list of amplifiers; [detector[0]] is the
    head of the list. *)
Definition Detector := list Amp.

(** An exposure: image, mask and variance planes over the pixel grid, the
    exposure's box and its detector. *)
Record Exposure := {
  exp_bbox : Box2I;
  exp_image : Z -> Z -> Q;
  exp_mask : Z -> Z -> Z;
  exp_variance : Z -> Z -> Q;
  exp_detector : Detector
}.

(** The task's world: the exposure it corrects in place and its log. *)
Record World := {
  w_exposure : Exposure;
  w_log : list string
}.

Definition set_exposure (w : World) (e : Exposure) : World :=
  {| w_exposure := e; w_log := w_log w |}.

Definition log (msg : string) : M World unit :=
  fun w => (Ok tt, {| w_exposure := w_exposure w; w_log := w_log w ++ [msg] |}).

Definition with_image (e : Exposure) (im : Z -> Z -> Q) : Exposure :=
  {| exp_bbox := exp_bbox e; exp_image := im; exp_mask := exp_mask e;
     exp_variance := exp_variance e; exp_detector := exp_detector e |}.

Definition with_mask (e : Exposure) (mk : Z -> Z -> Z) : Exposure :=
  {| exp_bbox := exp_bbox e; exp_image := exp_image e; exp_mask := mk;
     exp_variance := exp_variance e; exp_detector := exp_detector e |}.

(** Bit of the SUSPECT plane in the framework's default mask dictionary
    (BAD, SAT, INTRP, CR, EDGE, DETECTED, DETECTED_NEGATIVE, SUSPECT, ...). *)
Definition SUSPECT_bit : Z := 7.

(** [FootprintSet(ampImage, Threshold(maxUncorr), "SUSPECT")] from the
    framework (lsst.afw.detection, outside this repository), as the spec
    describes it: in the amplifier's view, the pixels whose value exceeds
    the threshold get the SUSPECT bit set in the mask. *)
Definition footprintSet_suspect (e : Exposure) (b : Box2I) (threshold : Q)
  : Exposure :=
  with_mask e (fun x y =>
    if box_contains b x y && Qlt_bool threshold (exp_image e x y)
    then Z.setbit (exp_mask e x y) SUSPECT_bit
    else exp_mask e x y).

(** [ampArr *= 1.0 + squareCoeff*ampArr] on the amplifier's view of the
    image array. *)
Definition scale_amp (e : Exposure) (b : Box2I) (squareCoeff : Q) : Exposure :=
  with_image e (fun x y =>
    if box_contains b x y
    then let v := exp_image e x y in (v * (1 + squareCoeff * v))%Q
    else exp_image e x y).

(** [squareCoeff, coeff1, maxUncorr = amp.getLinearityCoeffs()[0:3]] *)
Definition unpack3 (l : list Q) : M World (Q * Q * Q) :=
  match firstn 3 l with
  | [a; b; c] => ret (a, b, c)
  | _ => raise (ValueError "not enough values to unpack")
  end.

(** [doCorrect(detector)] *)
Definition doCorrect (detector : Detector) : M World bool :=
  match detector with
  | [] => raise (IndexError "detector index out of range")
  | amp :: _ =>
      let linearityType := amp_linearityType amp in
      if String.eqb linearityType "NONE" then ret false
      else if String.eqb linearityType "PROPORTIONAL" then
        let numCoeffs := length (amp_linearityCoeffs amp) in
        if Nat.ltb numCoeffs 3
        then raise (RuntimeError "Need 3 linearity coefficients")
        else ret true
      else raise (RuntimeError "Unsupported linearity type")
  end.

Definition coeff1_error : PyErr :=
  RuntimeError "coeff[1] must be 0 for PROPORTIONAL non-linearity correction".

(** The body of [for amp in detector:] in [run]; returns whether the
    amplifier was corrected ([continue] returns [false]).  The finiteness
    check written after the [raise] in the source is unreachable and has no
    counterpart here. *)
Definition amp_step (amp : Amp) : M World bool :=
  cs <- unpack3 (amp_linearityCoeffs amp) ;;
  let '(squareCoeff, coeff1, maxUncorr) := cs in
  if negb (Qeq_bool coeff1 0) then raise coeff1_error
  else if Qle_bool maxUncorr 0 && Qeq_bool squareCoeff 0 then ret false
  else
    w <- get ;;
    let e := w_exposure w in
    if negb (box_within (amp_bbox amp) (exp_bbox e))
    then raise (LengthError "sub-image box does not fit in the exposure")
    else
      let e1 := if Qlt_bool 0 maxUncorr
                then footprintSet_suspect e (amp_bbox amp) maxUncorr
                else e in
      let e2 := if negb (Qeq_bool squareCoeff 0)
                then scale_amp e1 (amp_bbox amp) squareCoeff
                else e1 in
      put (set_exposure w e2) ;;
      ret true.

Fixpoint run_amps (amps : list Amp) (didCorrect : bool) : M World bool :=
  match amps with
  | [] => ret didCorrect
  | amp :: rest =>
      corrected <- amp_step amp ;;
      run_amps rest (didCorrect || corrected)
  end.

(** [run(exposure)].  The entries that the [@pipeBase.timeMethod] wrapper
    adds to the log and to the task metadata are not modelled: [w_log]
    holds the messages of the body only. *)
Definition run : M World unit :=
  w <- get ;;
  let detector := exp_detector (w_exposure w) in
  want <- doCorrect detector ;;
  if negb want then
    log "Non-linearity correction not wanted for detector"
  else
    didCorrect <- run_amps detector false ;;
    if didCorrect then log "Applied linearity corrections to detector"
    else ret tt.

End Linearize.

(** ** IsrTask *)

Module Isr.

Import Linearize.
Local Open Scope string_scope.

(** A pixel value of a floating-point plane: a number or NaN. *)
Inductive Pix :=
| Num (v : Q)
| NaN.

Record Pixel := {
  px_image : Pix;
  px_mask : Z;
  px_variance : Q
}.

Definition MaskedImage := list Pixel.
Definition Image := list Pix.

Definition mi_getImage (mi : MaskedImage) : Image := map px_image mi.

(** The exposure the task corrects: its masked image, the names of its mask
    planes and the exposure time of its calibration record. *)
Record Exposure := {
  x_maskedImage : MaskedImage;
  x_maskPlanes : list string;
  x_exptime : Q
}.

(** [lsst.meas.algorithms.Defect]: a box of bad pixels. *)
Definition DefectList := list Box2I.

Record ElectronicParams := {
  ep_gain : Q;
  ep_readNoise : Q;
  ep_saturationLevel : Q
}.

(** Objects of [lsst.afw.cameraGeom] the helpers receive as [detector]. *)
Inductive DetectorObj :=
| DAmp (ep : ElectronicParams) (diskBiasSec : Box2I)
| DCcd (ep : ElectronicParams) (defects : DefectList)
| DDetector.

(** [checkIsAmp]: [isinstance(detector, cameraGeom.Amp)]. *)
Definition checkIsAmp (detector : DetectorObj) : bool :=
  match detector with
  | DAmp _ _ => true
  | _ => false
  end.

(** The per-sensor data handle: [get("bias")], [["dark"]], [["flat"]]. *)
Record DataRef := {
  dr_bias : MaskedImage;
  dr_dark : Exposure;
  dr_flat : MaskedImage
}.

(** Python values bound to names, for the name resolution of the helpers. *)
Inductive PyObj :=
| OSelf
| OExposure
| ODataRef (dr : DataRef)
| ODetector (d : DetectorObj)
| OModule (name : string)
| OClass (name : string)
| OValue (v : Q)
| OInt (n : Z)
| ODefectList (dl : DefectList).

Definition Scope := list (string * PyObj).

Fixpoint assoc {A} (k : string) (l : list (string * A)) : option A :=
  match l with
  | [] => None
  | (k', v) :: rest => if String.eqb k k' then Some v else assoc k rest
  end.

(** The module-level names of [isrTask.py]. *)
Definition module_globals : Scope :=
  [("afwImage", OModule "lsst.afw.image");
   ("measAlg", OModule "lsst.meas.algorithms");
   ("cameraGeom", OModule "lsst.afw.cameraGeom");
   ("pexConfig", OModule "lsst.pex.config");
   ("pipeBase", OModule "lsst.pipe.base");
   ("isr", OModule "lsst.ip.isr.isr");
   ("UnmaskedNanCounterF", OClass "UnmaskedNanCounterF");
   ("AssembleCcdTask", OClass "AssembleCcdTask");
   ("IsrTaskConfig", OClass "IsrTaskConfig");
   ("IsrTask", OClass "IsrTask")].

(** The state the task mutates: the exposure it was handed, the task's
    metadata, and the trace of calls made into the external [isr] module. *)
Record World := {
  w_exposure : Exposure;
  w_metadata : list (string * Z);
  w_calls : list string
}.

(** Name lookup of a function body: locals, then module globals; an
    unbound name raises [NameError]. *)
Definition lookup {S} (locals : Scope) (name : string) : M S PyObj :=
  match assoc name locals with
  | Some o => ret o
  | None =>
      match assoc name module_globals with
      | Some o => ret o
      | None => raise (NameError name)
      end
  end.

Record IsrTaskConfig := {
  doWrite : bool;
  fwhm : Q;
  saturatedMaskName : string;
  flatScalingType : string;
  flatUserScale : Q;
  overscanFitType : string;
  overscanPolyOrder : Z;
  growSaturationFootprintSize : Z;
  growDefectFootprintSize : Z
}.

Definition amp_error : PyErr := RuntimeError "This method must be executed on an amp.".

Definition nan_error : PyErr := RuntimeError "There were unmasked NaNs".

(** [UnmaskedNanCounterF] (isrLib, not under src/): the number of NaN
    image pixels with no mask bit set. *)
Definition is_unmasked_nan (p : Pixel) : bool :=
  match px_image p with
  | NaN => (px_mask p =? 0)%Z
  | Num _ => false
  end.

(** Modelled from the spec: [UnmaskedNanCounterF.apply] / [getNpix] of
    isrLib, which is not under src/; the spec calls the result the
    "unmasked-NaN count". *)
Definition unmaskedNanCount (mi : MaskedImage) : Z :=
  Z.of_nat (length (filter is_unmasked_nan mi)).

Definition meta_set (k : string) (v : Z) (md : list (string * Z))
  : list (string * Z) :=
  (k, v) :: filter (fun p => negb (String.eqb (fst p) k)) md.

Section IsrTask.

(** [self.config] and [self.transposeForInterpolation]. *)
Variable config : IsrTaskConfig.
Variable transposeForInterpolation : bool.

(** The numeric routines of the external [isr] module, opaque here. *)
Variable isr_makeThresholdMask : MaskedImage -> Q -> Z -> string -> MaskedImage.
Variable isr_saturationCorrection :
  MaskedImage -> Q -> Q -> Z -> string -> MaskedImage.
Variable isr_overscanCorrection : MaskedImage -> Image -> string -> Z -> MaskedImage.
Variable isr_biasCorrection : MaskedImage -> MaskedImage -> MaskedImage.
Variable isr_updateVariance : MaskedImage -> Q -> Q -> MaskedImage.
Variable isr_getDefectListFromMask : MaskedImage -> string -> Z -> DefectList.
Variable isr_transposeMaskedImage : MaskedImage -> MaskedImage.
Variable isr_interpolateDefectList : MaskedImage -> DefectList -> Q -> MaskedImage.
(** [expImage.Factory(expImage, bbox)]; [None] when the framework raises
    [LengthError]. *)
Variable subimage : Image -> Box2I -> option Image.

Definition getMaskedImage : M World MaskedImage :=
  fun w => (Ok (x_maskedImage (w_exposure w)), w).

Definition record_call (name : string) : M World unit :=
  fun w => (Ok tt, {| w_exposure := w_exposure w; w_metadata := w_metadata w;
                      w_calls := app (w_calls w) [name] |}).

Definition setMaskedImage (mi : MaskedImage) : M World unit :=
  fun w =>
    let e := w_exposure w in
    (Ok tt, {| w_exposure := {| x_maskedImage := mi; x_maskPlanes := x_maskPlanes e;
                                x_exptime := x_exptime e |};
               w_metadata := w_metadata w; w_calls := w_calls w |}).

(** A call of the external [isr] module that updates the exposure's masked
    image in place. *)
Definition isr_inplace (name : string) (mi' : MaskedImage) : M World unit :=
  record_call name ;; setMaskedImage mi'.

Definition addMaskPlane (name : string) : M World unit :=
  fun w =>
    let e := w_exposure w in
    (Ok tt, {| w_exposure := {| x_maskedImage := x_maskedImage e;
                                x_maskPlanes := app (x_maskPlanes e) [name];
                                x_exptime := x_exptime e |};
               w_metadata := w_metadata w; w_calls := w_calls w |}).

Definition metadata_set (k : string) (v : Z) : M World unit :=
  fun w => (Ok tt, {| w_exposure := w_exposure w;
                      w_metadata := meta_set k v (w_metadata w);
                      w_calls := w_calls w |}).

(** [obj.getMaskedImage()] on a Python value. *)
Definition obj_getMaskedImage (o : PyObj) : M World MaskedImage :=
  match o with
  | OExposure => getMaskedImage
  | _ => raise (AttributeError "getMaskedImage")
  end.

(** [obj.get("bias").getMaskedImage()] on a Python value. *)
Definition obj_getBias (o : PyObj) : M World MaskedImage :=
  match o with
  | ODataRef dr => ret (dr_bias dr)
  | _ => raise (AttributeError "get")
  end.

(** [obj.getElectronicParams()] on a Python value. *)
Definition obj_getElectronicParams (o : PyObj) : M World ElectronicParams :=
  match o with
  | ODetector (DAmp ep _) | ODetector (DCcd ep _) => ret ep
  | _ => raise (AttributeError "getElectronicParams")
  end.

(** [biasCorrection(self, exposure, dataRef)] *)
Definition biasCorrection (dataRef : DataRef) : M World unit :=
  let locals := [("self", OSelf); ("exposure", OExposure);
                 ("dataRef", ODataRef dataRef)] in
  sensorRef <- lookup locals "sensorRef" ;;
  biasMI <- obj_getBias sensorRef ;;
  _ <- lookup locals "isr" ;;
  ccdExp <- lookup locals "ccdExp" ;;
  mi <- obj_getMaskedImage ccdExp ;;
  isr_inplace "isr.biasCorrection" (isr_biasCorrection mi biasMI).

(** [updateVariance(self, exposure, ccd)] *)
Definition updateVariance (ccd : DetectorObj) : M World unit :=
  let locals := [("self", OSelf); ("exposure", OExposure);
                 ("ccd", ODetector ccd)] in
  _ <- lookup locals "isr" ;;
  ccdExp <- lookup locals "ccdExp" ;;
  mi <- obj_getMaskedImage ccdExp ;;
  c <- lookup locals "ccd" ;;
  ep <- obj_getElectronicParams c ;;
  isr_inplace "isr.updateVariance"
    (isr_updateVariance mi (ep_gain ep) (ep_readNoise ep)).

(** [saturationCorrection(self, exposure, detector)] *)
Definition saturationCorrection (detector : DetectorObj) : M World unit :=
  if negb (checkIsAmp detector) then raise amp_error
  else
    let fwhm := fwhm config in
    let grow := growSaturationFootprintSize config in
    let maskName := saturatedMaskName config in
    ep <- obj_getElectronicParams (ODetector detector) ;;
    let satvalue := ep_saturationLevel ep in
    mi <- getMaskedImage ;;
    isr_inplace "isr.saturationCorrection"
      (isr_saturationCorrection mi satvalue fwhm grow maskName).

(** [saturationDetection(self, exposure, detector)] *)
Definition saturationDetection (detector : DetectorObj) : M World unit :=
  if negb (checkIsAmp detector) then raise amp_error
  else
    ep <- obj_getElectronicParams (ODetector detector) ;;
    let satvalue := ep_saturationLevel ep in
    let maskName := saturatedMaskName config in
    mi <- getMaskedImage ;;
    isr_inplace "isr.makeThresholdMask"
      (isr_makeThresholdMask mi satvalue 0 maskName).

(** [overscanCorrection(self, exposure, detector)] *)
Definition overscanCorrection (detector : DetectorObj) : M World unit :=
  if negb (checkIsAmp detector) then raise amp_error
  else
    let fittype := overscanFitType config in
    let polyorder := overscanPolyOrder config in
    mi <- getMaskedImage ;;
    let expImage := mi_getImage mi in
    match detector with
    | DAmp _ diskBiasSec =>
        match subimage expImage diskBiasSec with
        | None => raise (LengthError "overscan box does not fit in the image")
        | Some overscan =>
            isr_inplace "isr.overscanCorrection"
              (isr_overscanCorrection mi overscan fittype polyorder)
        end
    | _ => raise (AttributeError "getDiskBiasSec")
    end.

(** [maskAndInterpNan(self, exposure)].  The branch guarded by [nnans > 0]
    is translated as written, including its use of the unbound name
    [uudefects]. *)
Definition maskAndInterpNan : M World unit :=
  let fwhm := fwhm config in
  let grow := growDefectFootprintSize config in
  addMaskPlane "UNMASKEDNAN" ;;
  mi <- getMaskedImage ;;
  let nnans := unmaskedNanCount mi in
  metadata_set "NUMNANS" nnans ;;
  (if negb (nnans =? 0)%Z then raise nan_error else ret tt) ;;
  if (nnans >? 0)%Z then
    record_call "isr.getDefectListFromMask" ;;
    let undefects := isr_getDefectListFromMask mi "UNMASKEDNAN" grow in
    let locals := [("self", OSelf); ("exposure", OExposure); ("fwhm", OValue fwhm);
                   ("grow", OInt grow); ("unc", OClass "UnmaskedNanCounterF");
                   ("nnans", OInt nnans); ("undefects", ODefectList undefects)] in
    if transposeForInterpolation then
      record_call "isr.transposeMaskedImage" ;;
      _ <- lookup (("mi", OValue 0) :: locals) "uudefects" ;;
      ret tt
    else
      _ <- lookup locals "uudefects" ;;
      ret tt
  else ret tt.

End IsrTask.

End Isr.

(** ** Properties and sample inputs *)

Module LinearizeProps.

Import Linearize.

(** The pixel [(x, y)] lies in the data box of some amplifier. *)
Definition in_some_amp (amps : list Amp) (x y : Z) : bool :=
  existsb (fun a => box_contains (amp_bbox a) x y) amps.

(** Two boxes whose x ranges or y ranges do not meet. *)
Definition boxes_disjoint (b1 b2 : Box2I) : bool :=
  (box_minX b1 + box_width b1 <=? box_minX b2)%Z ||
  (box_minX b2 + box_width b2 <=? box_minX b1)%Z ||
  (box_minY b1 + box_height b1 <=? box_minY b2)%Z ||
  (box_minY b2 + box_height b2 <=? box_minY b1)%Z.

Fixpoint pairwise_disjoint (amps : list Amp) : bool :=
  match amps with
  | [] => true
  | a :: rest =>
      forallb (fun b => boxes_disjoint (amp_bbox a) (amp_bbox b)) rest &&
      pairwise_disjoint rest
  end.

Definition amps_within (amps : list Amp) (outer : Box2I) : bool :=
  forallb (fun a => box_within (amp_bbox a) outer) amps.

(** The proportional correction with coefficients [(s, 0, t)] as the spec
    describes it, pixel by pixel: inside the amplifiers the value [v]
    becomes [v*(1+s*v)] and the SUSPECT bit is set where [v > t]; the mask
    is left as it was where [v <= t]; variance and everything outside the
    amplifiers are unchanged. *)
Definition proportionally_corrected (amps : list Amp) (s t : Q)
    (e e' : Exposure) : Prop :=
  exp_bbox e' = exp_bbox e /\
  exp_detector e' = exp_detector e /\
  exp_variance e' = exp_variance e /\
  forall x y,
    let v := exp_image e x y in
    let m := exp_mask e x y in
    (in_some_amp amps x y = true ->
       exp_image e' x y = (v * (1 + s * v))%Q /\
       ((t < v)%Q -> exp_mask e' x y = Z.setbit m SUSPECT_bit /\
                     Z.testbit (exp_mask e' x y) SUSPECT_bit = true) /\
       ((v <= t)%Q -> exp_mask e' x y = m)) /\
    (in_some_amp amps x y = false ->
       exp_image e' x y = v /\ exp_mask e' x y = m).

(** An amplifier with [squareCoeff = 0] and [maxUncorr <= 0]. *)
Definition skip_amp (a : Amp) : Prop :=
  exists s c1 t rest, amp_linearityCoeffs a = s :: c1 :: t :: rest /\
                      (s == 0)%Q /\ (t <= 0)%Q.

Definition box1 : Box2I :=
  {| box_minX := 0; box_minY := 0; box_width := 1; box_height := 1 |}.
Definition box2 : Box2I :=
  {| box_minX := 1; box_minY := 0; box_width := 1; box_height := 1 |}.
Definition box12 : Box2I :=
  {| box_minX := 0; box_minY := 0; box_width := 2; box_height := 1 |}.

Definition mk_amp (name : string) (b : Box2I) (ty : string) (cs : list Q) : Amp :=
  {| amp_name := name; amp_bbox := b; amp_linearityType := ty;
     amp_linearityCoeffs := cs |}.

(** A two-pixel exposure with pixel values 1 and 3, an empty mask and the
    given detector. *)
Definition mk_world (det : Detector) : World :=
  {| w_exposure :=
       {| exp_bbox := box12;
          exp_image := fun x _ => if (x =? 0)%Z then 1%Q else 3%Q;
          exp_mask := fun _ _ => 0%Z;
          exp_variance := fun _ _ => 0%Q;
          exp_detector := det |};
     w_log := [] |}.

(** Two amplifiers, one per pixel, as in the package's test. *)
Definition det_tiled (s t : Q) : Detector :=
  [mk_amp "A" box1 "PROPORTIONAL" [s; 0; t];
   mk_amp "B" box2 "PROPORTIONAL" [s; 0; t]].

(** Two amplifiers over the same pixel. *)
Definition det_overlap (s t : Q) : Detector :=
  [mk_amp "A" box1 "PROPORTIONAL" [s; 0; t];
   mk_amp "B" box1 "PROPORTIONAL" [s; 0; t]].

Definition det_none : Detector :=
  [mk_amp "A" box1 "NONE" []; mk_amp "B" box2 "NONE" []].

(** A corrected first amplifier followed by one with [coeff[1] = 1]. *)
Definition det_bad_coeff1 : Detector :=
  [mk_amp "A" box1 "PROPORTIONAL" [1; 0; 0];
   mk_amp "B" box2 "PROPORTIONAL" [1; 1; 0]].

End LinearizeProps.

Module LinearizeExtraProps.

Import Linearize LinearizeProps.

(** What an amplifier-by-amplifier pass over [amps] may change: image and
    mask pixels inside the amplifiers' boxes only, and the mask only by
    setting bits; box, detector and variance plane stay as they were. *)
Definition confined (amps : list Amp) (e e' : Exposure) : Prop :=
  exp_bbox e' = exp_bbox e /\
  exp_detector e' = exp_detector e /\
  exp_variance e' = exp_variance e /\
  (forall x y k, Z.testbit (exp_mask e x y) k = true ->
                 Z.testbit (exp_mask e' x y) k = true) /\
  (forall x y, in_some_amp amps x y = false ->
     exp_image e' x y = exp_image e x y /\ exp_mask e' x y = exp_mask e x y).

End LinearizeExtraProps.

(** ** IsrTask.run *)

Module IsrRun.

Import Linearize Isr.
Local Open Scope string_scope.

(** The collaborators of [IsrTask.run]: the task's configuration and the
    framework and [isr] routines it calls, all opaque.  Those that may
    raise, or act on the task's log and metadata, are actions of the
    error-and-state monad. *)
Record IsrEnv := {
  env_config : IsrTaskConfig;
  env_transposeForInterpolation : bool;
  (** [pipe_base]'s [timeMethod] wrapper: the [logInfo] calls made before
      and, in a [finally] clause, after the method body *)
  env_timeStart : M World unit;
  env_timeEnd : M World unit;
  (** [self.log.log(self.log.INFO, "Performing ISR on sensor %s" % (sensorRef.dataId))] *)
  env_logStart : DataRef -> M World unit;
  (** [sensorRef.get('raw')] *)
  env_getRaw : DataRef -> M World Exposure;
  (** [cameraGeom.cast_Ccd(exposure.getDetector())] *)
  env_ccdOf : Exposure -> M World DetectorObj;
  (** [amp.getDiskAllPixels()] for [amp in ccd] *)
  env_ampBoxes : DetectorObj -> M World (list Box2I);
  (** [isr.floatImageFromInt(exposure)] *)
  env_floatImageFromInt : Exposure -> M World Exposure;
  (** [ccdExp.Factory(ccdExp, box)]: a view sharing the parent's pixels;
      [None] when the framework raises [LengthError]. *)
  env_subExposure : Exposure -> Box2I -> option Exposure;
  (** The parent after in-place changes made through a view of [box]. *)
  env_writeBack : Exposure -> Box2I -> Exposure -> Exposure;
  (** [cameraGeom.cast_Amp(ampExp.getDetector())] *)
  env_viewAmp : Exposure -> DetectorObj;
  (** [self.assembleCcd.run(ccdExp).exposure] *)
  env_assembleCcd : Exposure -> M World Exposure;
  (** [detector.getDefects()], as boxes *)
  env_defects : DetectorObj -> DefectList;
  env_makeThresholdMask : MaskedImage -> Q -> Z -> string -> MaskedImage;
  env_overscanCorrection : MaskedImage -> Image -> string -> Z -> MaskedImage;
  env_subimage : Image -> Box2I -> option Image;
  env_biasCorrection : MaskedImage -> MaskedImage -> MaskedImage;
  env_darkCorrection : MaskedImage -> MaskedImage -> Q -> Q -> MaskedImage;
  env_updateVariance : MaskedImage -> Q -> Q -> MaskedImage;
  env_flatCorrection : MaskedImage -> MaskedImage -> string -> Q -> MaskedImage;
  env_maskPixelsFromDefectList : MaskedImage -> DefectList -> string -> MaskedImage;
  env_getDefectListFromMask : MaskedImage -> string -> Z -> DefectList;
  env_transposeMaskedImage : MaskedImage -> MaskedImage;
  env_transposeDefectList : DefectList -> DefectList;
  env_interpolateDefectList : MaskedImage -> DefectList -> Q -> MaskedImage;
  env_interpolateFromMask : MaskedImage -> Q -> Z -> string -> MaskedImage
}.

(** [try: m finally: fin]: [fin] runs after [m] whatever [m] returned; an
    exception of [fin] replaces the outcome of [m]. *)
Definition try_finally {S A} (m : M S A) (fin : M S unit) : M S A :=
  fun s =>
    let '(r, s1) := m s in
    match fin s1 with
    | (Ok _, s2) => (r, s2)
    | (Err e, s2) => (Err e, s2)
    end.

Section Run.

Variable env : IsrEnv.

Definition setExposure (e : Exposure) : M World unit :=
  fun w => (Ok tt, {| w_exposure := e; w_metadata := w_metadata w;
                      w_calls := w_calls w |}).

(** [darkCorrection(self, exposure, dataRef)] *)
Definition darkCorrection (dataRef : DataRef) : M World unit :=
  let darkexposure := dr_dark dataRef in
  let darkScale := x_exptime darkexposure in
  w <- get ;;
  let expScale := x_exptime (w_exposure w) in
  mi <- getMaskedImage ;;
  isr_inplace "isr.darkCorrection"
    (env_darkCorrection env mi (x_maskedImage darkexposure) expScale darkScale).

(** [flatCorrection(self, exposure, dataRef)] *)
Definition flatCorrection (dataRef : DataRef) : M World unit :=
  let flatfield := dr_flat dataRef in
  mi <- getMaskedImage ;;
  isr_inplace "isr.flatCorrection"
    (env_flatCorrection env mi flatfield (flatScalingType (env_config env))
       (flatUserScale (env_config env))).

(** [saturationInterpolation(self, exposure)] *)
Definition saturationInterpolation : M World unit :=
  let maskName := saturatedMaskName (env_config env) in
  let fwhm := fwhm (env_config env) in
  let grow := growSaturationFootprintSize (env_config env) in
  mi0 <- getMaskedImage ;;
  if env_transposeForInterpolation env then
    record_call "isr.transposeMaskedImage" ;;
    let mi := env_transposeMaskedImage env mi0 in
    record_call "isr.interpolateFromMask" ;;
    let mi := env_interpolateFromMask env mi fwhm grow maskName in
    record_call "isr.transposeMaskedImage" ;;
    let mi := env_transposeMaskedImage env mi in
    setMaskedImage mi
  else
    isr_inplace "isr.interpolateFromMask"
      (env_interpolateFromMask env mi0 fwhm grow maskName).

(** [maskAndInterpDefect(self, exposure, detector)] *)
Definition maskAndInterpDefect (detector : DetectorObj) : M World unit :=
  let fwhm := fwhm (env_config env) in
  let grow := growDefectFootprintSize (env_config env) in
  let defectList := map (fun bbox => bbox) (env_defects env detector) in
  mi <- getMaskedImage ;;
  isr_inplace "isr.maskPixelsFromDefectList"
    (env_maskPixelsFromDefectList env mi defectList "BAD") ;;
  mi <- getMaskedImage ;;
  record_call "isr.getDefectListFromMask" ;;
  let defectList := env_getDefectListFromMask env mi "BAD" grow in
  if env_transposeForInterpolation env then
    record_call "isr.transposeMaskedImage" ;;
    let mi := env_transposeMaskedImage env mi in
    record_call "isr.transposeDefectList" ;;
    let defectList := env_transposeDefectList env defectList in
    record_call "isr.interpolateDefectList" ;;
    let mi := env_interpolateDefectList env mi defectList fwhm in
    record_call "isr.transposeMaskedImage" ;;
    let mi := env_transposeMaskedImage env mi in
    setMaskedImage mi
  else
    isr_inplace "isr.interpolateDefectList"
      (env_interpolateDefectList env mi defectList fwhm).

(** One pass of [for amp in ccd:]: the amplifier-only helpers run on a view
    of the CCD exposure, and what they change through the view, also before
    an exception, is changed in the CCD exposure. *)
Definition amp_pass (box : Box2I) : M World unit :=
  fun w =>
    let ccdExp := w_exposure w in
    match env_subExposure env ccdExp box with
    | None => (Err (LengthError "amplifier box does not fit in the exposure"), w)
    | Some ampExp =>
        let amp := env_viewAmp env ampExp in
        let '(r, wv) :=
          (saturationDetection (env_config env) (env_makeThresholdMask env) amp ;;
           overscanCorrection (env_config env) (env_overscanCorrection env)
             (env_subimage env) amp)
          {| w_exposure := ampExp; w_metadata := w_metadata w;
             w_calls := w_calls w |} in
        (r, {| w_exposure := env_writeBack env ccdExp box (w_exposure wv);
               w_metadata := w_metadata wv; w_calls := w_calls wv |})
    end.

Fixpoint amp_loop (boxes : list Box2I) : M World unit :=
  match boxes with
  | [] => ret tt
  | box :: rest => amp_pass box ;; amp_loop rest
  end.

(** The body of [run(self, sensorRef)]: returns the corrected exposure.
    The [display] call has no counterpart. *)
Definition run_body (sensorRef : DataRef) : M World Exposure :=
  env_logStart env sensorRef ;;
  raw <- env_getRaw env sensorRef ;;
  ccd <- env_ccdOf env raw ;;
  ccdExp <- env_floatImageFromInt env raw ;;
  setExposure ccdExp ;;
  boxes <- env_ampBoxes env ccd ;;
  amp_loop boxes ;;
  biasCorrection (env_biasCorrection env) sensorRef ;;
  darkCorrection sensorRef ;;
  updateVariance (env_updateVariance env) ccd ;;
  flatCorrection sensorRef ;;
  w <- get ;;
  ccdExp <- env_assembleCcd env (w_exposure w) ;;
  setExposure ccdExp ;;
  ccd <- env_ccdOf env ccdExp ;;
  maskAndInterpDefect ccd ;;
  saturationInterpolation ;;
  maskAndInterpNan (env_config env) (env_transposeForInterpolation env)
    (env_getDefectListFromMask env) ;;
  (if doWrite (env_config env) then record_call "sensorRef.put" else ret tt) ;;
  w <- get ;;
  ret (w_exposure w).

(** [run], as decorated with [@pipeBase.timeMethod]. *)
Definition run (sensorRef : DataRef) : M World Exposure :=
  env_timeStart env ;;
  try_finally (run_body sensorRef) (env_timeEnd env).

End Run.

End IsrRun.

(** ** The monad *)

Module MonadFacts.

Lemma bind_ok {S A B} (m : M S A) (k : A -> M S B) s a s' :
  m s = (Ok a, s') -> bind m k s = k a s'.
Proof. unfold bind; intros H; rewrite H; reflexivity. Qed.

Lemma bind_err {S A B} (m : M S A) (k : A -> M S B) s e s' :
  m s = (Err e, s') -> bind m k s = (Err e, s').
Proof. unfold bind; intros H; rewrite H; reflexivity. Qed.

Lemma Qeq_bool_false x y : ~ (x == y)%Q -> Qeq_bool x y = false.
Proof.
  intros H; destruct (Qeq_bool x y) eqn:E; [|reflexivity].
  apply Qeq_bool_iff in E; contradiction.
Qed.

Lemma Qle_bool_false x y : (y < x)%Q -> Qle_bool x y = false.
Proof.
  intros H; destruct (Qle_bool x y) eqn:E; [|reflexivity].
  apply Qle_bool_iff in E; exfalso; apply (Qlt_not_le _ _ H E).
Qed.

Lemma Qlt_bool_iff x y : Qlt_bool x y = true <-> (x < y)%Q.
Proof.
  unfold Qlt_bool; split.
  - intros H; apply negb_true_iff in H.
    destruct (Qlt_le_dec x y) as [Hl|Hl]; [exact Hl|].
    apply Qle_bool_iff in Hl; congruence.
  - intros H; rewrite (Qle_bool_false y x H); reflexivity.
Qed.

Lemma Qlt_bool_false x y : (y <= x)%Q -> Qlt_bool x y = false.
Proof.
  intros H; unfold Qlt_bool; apply Qle_bool_iff in H; rewrite H; reflexivity.
Qed.

End MonadFacts.

(** ** ProportionalLinearizeTask: theorems *)

Module LinearizeFacts.

Import Linearize LinearizeProps MonadFacts.

Lemma doCorrect_state d w : snd (doCorrect d w) = w.
Proof.
  destruct d as [|a rest]; [reflexivity|]; simpl.
  destruct (String.eqb _ "NONE"); [reflexivity|].
  destruct (String.eqb _ "PROPORTIONAL"); [|reflexivity].
  destruct (Nat.ltb _ 3); reflexivity.
Qed.

Lemma doCorrect_result d w : doCorrect d w = (fst (doCorrect d w), w).
Proof. rewrite <- (doCorrect_state d w) at 3; destruct (doCorrect d w); reflexivity. Qed.

(** An amplifier whose coefficients are [(s, 0, t)] with [s <> 0] and
    [t > 0], inside the exposure: flagged, then scaled. *)
Lemma amp_step_proportional a s t w :
  amp_linearityCoeffs a = [s; 0; t]%Q -> ~ (s == 0)%Q -> (0 < t)%Q ->
  box_within (amp_bbox a) (exp_bbox (w_exposure w)) = true ->
  amp_step a w =
    (Ok true, set_exposure w (scale_amp
       (footprintSet_suspect (w_exposure w) (amp_bbox a) t) (amp_bbox a) s)).
Proof.
  intros Hc Hs Ht Hb.
  unfold amp_step, unpack3; rewrite Hc; cbn [firstn].
  unfold bind at 1, ret at 1.
  rewrite (Qle_bool_false t 0 Ht), (Qeq_bool_false s 0 Hs).
  assert (Qlt_bool 0 t = true) as Hlt by (apply Qlt_bool_iff; exact Ht).
  assert (Qeq_bool 0 0 = true) as H00 by reflexivity.
  rewrite H00; cbv [negb andb bind get put ret]; rewrite Hb, Hlt; reflexivity.
Qed.

Lemma boxes_disjoint_contains b1 b2 x y :
  boxes_disjoint b1 b2 = true -> box_contains b1 x y = true ->
  box_contains b2 x y = false.
Proof.
  unfold boxes_disjoint, box_contains; intros H1 H2.
  apply not_true_iff_false; intros H3.
  rewrite !orb_true_iff, !Z.leb_le in H1.
  rewrite !andb_true_iff, !Z.leb_le, !Z.ltb_lt in H2, H3.
  lia.
Qed.

Lemma disjoint_not_in_rest a rest x y :
  forallb (fun b => boxes_disjoint (amp_bbox a) (amp_bbox b)) rest = true ->
  box_contains (amp_bbox a) x y = true -> in_some_amp rest x y = false.
Proof.
  induction rest as [|b rest IH]; intros Hd Hc; [reflexivity|].
  simpl in Hd; apply andb_true_iff in Hd as [Hab Hd].
  simpl; rewrite (boxes_disjoint_contains _ _ _ _ Hab Hc); simpl.
  apply IH; assumption.
Qed.

Lemma run_amps_proportional s t :
  ~ (s == 0)%Q -> (0 < t)%Q ->
  forall amps b w,
  Forall (fun a => amp_linearityCoeffs a = [s; 0; t]%Q) amps ->
  amps_within amps (exp_bbox (w_exposure w)) = true ->
  pairwise_disjoint amps = true ->
  exists b' w', run_amps amps b w = (Ok b', w') /\
    w_log w' = w_log w /\
    proportionally_corrected amps s t (w_exposure w) (w_exposure w').
Proof.
  intros Hs Ht amps; induction amps as [|a r IH]; intros b w Hf Hw Hd.
  - exists b, w; split; [reflexivity|]; split; [reflexivity|].
    repeat split; intros; discriminate.
  - inversion Hf as [|? ? Hca Hfr]; subst.
    simpl in Hw, Hd; apply andb_true_iff in Hw as [Hwa Hwr].
    apply andb_true_iff in Hd as [Hda Hdr].
    set (e := w_exposure w) in *.
    set (e1 := scale_amp (footprintSet_suspect e (amp_bbox a) t) (amp_bbox a) s).
    destruct (IH (b || true) (set_exposure w e1) Hfr Hwr Hdr)
      as (b' & w' & Hrun & Hlog & Hb & Hdet & Hvar & Hpx).
    exists b', w'; split; [|split].
    + simpl; rewrite (bind_ok _ _ _ _ _ (amp_step_proportional a s t w Hca Hs Ht Hwa)).
      exact Hrun.
    + exact Hlog.
    + split; [exact Hb|]; split; [exact Hdet|]; split; [exact Hvar|].
      intros x y; specialize (Hpx x y); cbv zeta in *.
      unfold in_some_amp in *; simpl existsb.
      destruct (box_contains (amp_bbox a) x y) eqn:Ha; simpl orb.
      * pose proof (disjoint_not_in_rest a r x y Hda Ha) as Hr.
        unfold in_some_amp in Hr; rewrite Hr in Hpx.
        destruct Hpx as [_ HB]; destruct (HB eq_refl) as [Hi Hm].
        split; [intros _|discriminate].
        rewrite Hi, Hm; subst e1; cbn [scale_amp footprintSet_suspect with_image
          with_mask exp_image exp_mask set_exposure w_exposure]; rewrite Ha; simpl andb.
        split; [reflexivity|]; split.
        -- intros Hv; rewrite (proj2 (Qlt_bool_iff t _) Hv).
           split; [reflexivity|apply Z.setbit_eq; unfold SUSPECT_bit; lia].
        -- intros Hv; rewrite (Qlt_bool_false t _ Hv); reflexivity.
      * subst e1; cbn [scale_amp footprintSet_suspect with_image with_mask exp_image
          exp_mask set_exposure w_exposure] in Hpx; rewrite Ha in Hpx; simpl andb in Hpx.
        split; [intros Hr; apply (proj1 Hpx Hr)|].
        intros Hr; apply (proj2 Hpx Hr).
Qed.

Lemma doCorrect_proportional a rest w :
  amp_linearityType a = "PROPORTIONAL"%string ->
  (3 <= length (amp_linearityCoeffs a))%nat ->
  doCorrect (a :: rest) w = (Ok true, w).
Proof.
  intros Ht Hl; simpl; rewrite Ht; simpl.
  apply Nat.ltb_ge in Hl; rewrite Hl; reflexivity.
Qed.

(** An amplifier with [squareCoeff = 0] and [maxUncorr <= 0] is skipped,
    unless its [coeff[1]] is non-zero. *)
Lemma amp_step_skip a s c1 t rest w :
  amp_linearityCoeffs a = s :: c1 :: t :: rest -> (s == 0)%Q -> (t <= 0)%Q ->
  amp_step a w = (if Qeq_bool c1 0 then Ok false else Err coeff1_error, w).
Proof.
  intros Hc Hs Ht.
  unfold amp_step, unpack3; rewrite Hc; cbn [firstn].
  unfold bind at 1, ret at 1.
  apply Qeq_bool_iff in Hs; apply Qle_bool_iff in Ht.
  destruct (Qeq_bool c1 0); simpl; [rewrite Ht, Hs|]; reflexivity.
Qed.

(** An amplifier with a non-zero [coeff[1]] raises before touching the
    exposure. *)
Lemma amp_step_coeff1 a s c1 rest w :
  amp_linearityCoeffs a = s :: c1 :: rest -> ~ (c1 == 0)%Q ->
  exists err, amp_step a w = (Err err, w).
Proof.
  intros Hc H1; unfold amp_step, unpack3; rewrite Hc.
  destruct rest as [|t rest]; cbn [firstn].
  - eexists; reflexivity.
  - unfold bind at 1, ret at 1; rewrite (Qeq_bool_false c1 0 H1).
    eexists; reflexivity.
Qed.

Lemma run_amps_error_if_in a s c1 rest :
  amp_linearityCoeffs a = s :: c1 :: rest -> ~ (c1 == 0)%Q ->
  forall amps b w, In a amps -> exists err w', run_amps amps b w = (Err err, w').
Proof.
  intros Hc H1 amps; induction amps as [|x r IH]; intros b w Hin; [destruct Hin|].
  simpl; unfold bind at 1.
  destruct (amp_step x w) as [[c|err] w1] eqn:E.
  - destruct Hin as [Hx|Hin].
    + subst x; destruct (amp_step_coeff1 a s c1 rest w Hc H1) as [err Herr].
      congruence.
    + apply IH; exact Hin.
  - exists err, w1; reflexivity.
Qed.

Lemma run_amps_app pre l b b' w w' :
  run_amps pre b w = (Ok b', w') -> run_amps (pre ++ l) b w = run_amps l b' w'.
Proof.
  revert b w; induction pre as [|a pre IH]; intros b w H.
  - simpl in H; inversion H; reflexivity.
  - simpl in *; unfold bind in *.
    destruct (amp_step a w) as [[c|err] w1]; [apply IH; exact H|discriminate].
Qed.

Lemma run_amps_skip amps :
  Forall skip_amp amps -> forall b w, snd (run_amps amps b w) = w.
Proof.
  induction amps as [|a r IH]; intros Hf b w; [reflexivity|].
  inversion Hf as [|? ? (s & c1 & t & rest & Hc & Hs & Ht) Hr]; subst.
  simpl; rewrite (bind_ok _ _ _ _ _ (amp_step_skip a s c1 t rest w Hc Hs Ht)) ||
         (unfold bind; rewrite (amp_step_skip a s c1 t rest w Hc Hs Ht)).
  destruct (Qeq_bool c1 0); [apply IH; exact Hr|reflexivity].
Qed.

(** C1 (amended): on a detector whose amplifiers all have linearity type
    PROPORTIONAL and coefficients [(s, 0, t)] with [s <> 0] and [t > 0], whose
    data boxes lie in the exposure and do not overlap, [run] succeeds; every
    pixel in an amplifier's box goes from [v] to [v*(1+s*v)] and gets the
    SUSPECT bit where [v > t], its mask left as it was where [v <= t];
    pixels outside every amplifier and the variance plane are unchanged. *)
Theorem run_proportional_disjoint_amps (w : World) (s t : Q) :
  exp_detector (w_exposure w) <> [] ->
  Forall (fun a => amp_linearityType a = "PROPORTIONAL"%string /\
                   amp_linearityCoeffs a = [s; 0; t]%Q)
    (exp_detector (w_exposure w)) ->
  ~ (s == 0)%Q -> (0 < t)%Q ->
  amps_within (exp_detector (w_exposure w)) (exp_bbox (w_exposure w)) = true ->
  pairwise_disjoint (exp_detector (w_exposure w)) = true ->
  fst (run w) = Ok tt /\
  proportionally_corrected (exp_detector (w_exposure w)) s t
    (w_exposure w) (w_exposure (snd (run w))).
Proof.
  intros Hne Hf Hs Ht Hw Hd.
  assert (Hc : Forall (fun a => amp_linearityCoeffs a = [s; 0; t]%Q)
                 (exp_detector (w_exposure w)))
    by (eapply Forall_impl; [|exact Hf]; intros a [_ H]; exact H).
  destruct (run_amps_proportional s t Hs Ht _ false w Hc Hw Hd)
    as (b' & w' & Hrun & _ & Hpc).
  assert (Hdo : doCorrect (exp_detector (w_exposure w)) w = (Ok true, w)).
  { destruct (exp_detector (w_exposure w)) as [|a r]; [congruence|].
    inversion Hf as [|? ? [Hty Hca] _]; subst.
    apply doCorrect_proportional; [exact Hty|rewrite Hca; simpl; lia]. }
  unfold run; cbv [bind get]; rewrite Hdo; change (negb true) with false; cbv beta iota; rewrite Hrun.
  destruct b'; simpl; split; try reflexivity; exact Hpc.
Qed.

Lemma run_proportional_disjoint_amps_witness :
  fst (run (mk_world (det_tiled 1 2))) = Ok tt /\
  proportionally_corrected (det_tiled 1 2) 1 2
    (w_exposure (mk_world (det_tiled 1 2)))
    (w_exposure (snd (run (mk_world (det_tiled 1 2))))).
Proof.
  apply (run_proportional_disjoint_amps (mk_world (det_tiled 1 2)) 1 2).
  - discriminate.
  - repeat constructor.
  - intros H; apply Qeq_bool_iff in H; vm_compute in H; discriminate.
  - reflexivity.
  - reflexivity.
  - reflexivity.
Defined.

(** C1 counterexample: two PROPORTIONAL amplifiers with coefficients
    [(1, 0, 1/2)] over the same pixel of value 1: the pixel is corrected twice
    and ends at 6, not at [1*(1+1*1) = 2]. *)
Lemma run_overlapping_amps_counterexample :
  Forall (fun a => amp_linearityType a = "PROPORTIONAL"%string /\
                   amp_linearityCoeffs a = [1; 0; 1#2]%Q)
    (exp_detector (w_exposure (mk_world (det_overlap 1 (1#2))))) /\
  exp_image (w_exposure (mk_world (det_overlap 1 (1#2)))) 0 0 = 1%Q /\
  fst (run (mk_world (det_overlap 1 (1#2)))) = Ok tt /\
  (exp_image (w_exposure (snd (run (mk_world (det_overlap 1 (1#2)))))) 0 0 == 6)%Q /\
  ~ (exp_image (w_exposure (snd (run (mk_world (det_overlap 1 (1#2)))))) 0 0
       == 1 * (1 + 1 * 1))%Q.
Proof.
  split; [repeat constructor|].
  split; [reflexivity|].
  split; [vm_compute; reflexivity|].
  split; [vm_compute; reflexivity|].
  intros H; apply Qeq_bool_iff in H; vm_compute in H; discriminate.
Qed.

(** C4: [doCorrect] looks at the first amplifier only: [false] for NONE,
    [true] for PROPORTIONAL with at least 3 coefficients, an error for
    PROPORTIONAL with fewer and for any other type; it changes nothing. *)
Theorem doCorrect_first_amp (amp : Amp) (rest : Detector) (w : World) :
  (forall rest', doCorrect (amp :: rest') w = doCorrect (amp :: rest) w) /\
  (amp_linearityType amp = "NONE"%string ->
     doCorrect (amp :: rest) w = (Ok false, w)) /\
  (amp_linearityType amp = "PROPORTIONAL"%string ->
     (3 <= length (amp_linearityCoeffs amp))%nat ->
     doCorrect (amp :: rest) w = (Ok true, w)) /\
  (amp_linearityType amp = "PROPORTIONAL"%string ->
     (length (amp_linearityCoeffs amp) < 3)%nat ->
     exists err, doCorrect (amp :: rest) w = (Err err, w)) /\
  (amp_linearityType amp <> "NONE"%string ->
     amp_linearityType amp <> "PROPORTIONAL"%string ->
     exists err, doCorrect (amp :: rest) w = (Err err, w)).
Proof.
  split; [reflexivity|].
  split; [intros H; simpl; rewrite H; reflexivity|].
  split; [apply doCorrect_proportional|].
  split.
  - intros H Hl; simpl; rewrite H; simpl.
    apply Nat.ltb_lt in Hl; rewrite Hl; eexists; reflexivity.
  - intros H1 H2; simpl.
    apply String.eqb_neq in H1, H2; rewrite H1, H2; eexists; reflexivity.
Qed.

(** C5: once correction is wanted, an amplifier anywhere in the detector
    whose second linearity coefficient is non-zero makes [run] raise. *)
Theorem run_fails_on_nonzero_coeff1 (w : World) (amp : Amp) (s c1 : Q)
    (rest : list Q) :
  fst (doCorrect (exp_detector (w_exposure w)) w) = Ok true ->
  In amp (exp_detector (w_exposure w)) ->
  amp_linearityCoeffs amp = s :: c1 :: rest -> ~ (c1 == 0)%Q ->
  exists err, fst (run w) = Err err.
Proof.
  intros Hdo Hin Hc H1.
  destruct (run_amps_error_if_in amp s c1 rest Hc H1 _ false w Hin)
    as (err & w' & Hrun).
  exists err; unfold run; cbv [bind get].
  rewrite doCorrect_result, Hdo; change (negb true) with false; cbv beta iota.
  rewrite Hrun; reflexivity.
Qed.

Lemma run_fails_on_nonzero_coeff1_witness :
  exists err, fst (run (mk_world det_bad_coeff1)) = Err err.
Proof.
  apply (run_fails_on_nonzero_coeff1 (mk_world det_bad_coeff1)
           (mk_amp "B" box2 "PROPORTIONAL" [1; 1; 0]%Q) 1 1 [0]%Q).
  - reflexivity.
  - simpl; right; left; reflexivity.
  - reflexivity.
  - intros H; apply Qeq_bool_iff in H; vm_compute in H; discriminate.
Defined.

(** C6: when every amplifier has linearity type NONE, [run] leaves the
    exposure (image, mask and variance planes) exactly as it was. *)
Theorem run_none_unchanged (w : World) :
  Forall (fun a => amp_linearityType a = "NONE"%string)
    (exp_detector (w_exposure w)) ->
  w_exposure (snd (run w)) = w_exposure w.
Proof.
  intros Hf; unfold run; cbv [bind get].
  destruct (exp_detector (w_exposure w)) as [|a r] eqn:Hd; [reflexivity|].
  inversion Hf as [|? ? Ha _]; subst.
  simpl doCorrect; rewrite Ha; reflexivity.
Qed.

Lemma run_none_unchanged_witness :
  w_exposure (snd (run (mk_world det_none))) = w_exposure (mk_world det_none).
Proof.
  apply run_none_unchanged; repeat constructor.
Defined.

(** C8: with [squareCoeff = 0] and [maxUncorr = 0] on every PROPORTIONAL
    amplifier, [run] leaves the exposure it is given exactly as it was; in
    particular running it again on an already corrected exposure is a
    no-op. *)
Theorem run_zero_coeffs_noop (w : World) :
  Forall (fun a => amp_linearityType a = "PROPORTIONAL"%string /\
     exists s c1 t rest, amp_linearityCoeffs a = s :: c1 :: t :: rest /\
                         (s == 0)%Q /\ (t == 0)%Q)
    (exp_detector (w_exposure w)) ->
  w_exposure (snd (run w)) = w_exposure w.
Proof.
  intros Hf.
  assert (Hsk : Forall skip_amp (exp_detector (w_exposure w))).
  { eapply Forall_impl; [|exact Hf].
    intros a [_ (s & c1 & t & rest & Hc & Hs & Ht)].
    exists s, c1, t, rest; split; [exact Hc|]; split; [exact Hs|].
    rewrite Ht; apply Qle_refl. }
  unfold run; cbv [bind get]; rewrite doCorrect_result.
  destruct (fst (doCorrect (exp_detector (w_exposure w)) w)) as [[|]|err];
    cbv beta iota; [|reflexivity|reflexivity].
  change (negb true) with false; cbv beta iota.
  pose proof (run_amps_skip _ Hsk false w) as Hs.
  destruct (run_amps (exp_detector (w_exposure w)) false w) as [[[|]|err] w'];
    simpl in Hs; subst w'; reflexivity.
Qed.

Lemma run_zero_coeffs_noop_witness :
  w_exposure (snd (run (mk_world (det_tiled 0 0)))) =
  w_exposure (mk_world (det_tiled 0 0)).
Proof.
  apply run_zero_coeffs_noop.
  repeat constructor; exists 0%Q, 0%Q, 0%Q, []; repeat split; reflexivity.
Defined.

(** C9: an amplifier with [squareCoeff = 0] and a negative [maxUncorr] is
    skipped by the loop of [run]: its step changes nothing (no pixel value,
    no SUSPECT bit), and with [coeff[1] = 0] it reports the amplifier as not
    corrected. *)
Theorem amp_step_skips_negative_maxUncorr (amp : Amp) (s c1 t : Q)
    (rest : list Q) (w : World) :
  amp_linearityCoeffs amp = s :: c1 :: t :: rest -> (s == 0)%Q -> (t < 0)%Q ->
  snd (amp_step amp w) = w /\ ((c1 == 0)%Q -> fst (amp_step amp w) = Ok false).
Proof.
  intros Hc Hs Ht.
  rewrite (amp_step_skip amp s c1 t rest w Hc Hs (Qlt_le_weak _ _ Ht)).
  split; [reflexivity|].
  intros H1; apply Qeq_bool_iff in H1; rewrite H1; reflexivity.
Qed.

Lemma amp_step_skips_negative_maxUncorr_witness :
  snd (amp_step (mk_amp "A" box1 "PROPORTIONAL" [0; 0; -1]%Q)
         (mk_world (det_tiled 0 (-1)))) = mk_world (det_tiled 0 (-1)) /\
  ((0 == 0)%Q -> fst (amp_step (mk_amp "A" box1 "PROPORTIONAL" [0; 0; -1]%Q)
         (mk_world (det_tiled 0 (-1)))) = Ok false).
Proof.
  apply (amp_step_skips_negative_maxUncorr _ 0 0 (-1) []); reflexivity.
Defined.

(** C10: when [run] raises on an amplifier with a non-zero [coeff[1]], the
    corrections of the amplifiers processed before it stay in the
    exposure: the final state is the one those amplifiers left. *)
Theorem run_error_keeps_earlier_corrections (w w' : World)
    (pre post : list Amp) (amp : Amp) (b' : bool) (s c1 t : Q) (rest : list Q) :
  exp_detector (w_exposure w) = pre ++ amp :: post ->
  fst (doCorrect (exp_detector (w_exposure w)) w) = Ok true ->
  run_amps pre false w = (Ok b', w') ->
  amp_linearityCoeffs amp = s :: c1 :: t :: rest -> ~ (c1 == 0)%Q ->
  run w = (Err coeff1_error, w').
Proof.
  intros Hd Hdo Hpre Hc H1.
  unfold run; cbv [bind get].
  rewrite doCorrect_result, Hdo; change (negb true) with false; cbv beta iota.
  rewrite Hd, (run_amps_app pre (amp :: post) false b' w w' Hpre); simpl.
  unfold bind at 1; unfold amp_step, unpack3; rewrite Hc; cbn [firstn].
  unfold bind at 1, ret at 1; rewrite (Qeq_bool_false c1 0 H1); reflexivity.
Qed.

Lemma run_error_keeps_earlier_corrections_witness :
  run (mk_world det_bad_coeff1) =
    (Err coeff1_error,
     snd (run_amps [mk_amp "A" box1 "PROPORTIONAL" [1; 0; 0]%Q] false
            (mk_world det_bad_coeff1))) /\
  ~ (exp_image (w_exposure (snd (run_amps
        [mk_amp "A" box1 "PROPORTIONAL" [1; 0; 0]%Q] false
        (mk_world det_bad_coeff1)))) 0 0
     == exp_image (w_exposure (mk_world det_bad_coeff1)) 0 0)%Q.
Proof.
  split.
  - apply (run_error_keeps_earlier_corrections _ _
             [mk_amp "A" box1 "PROPORTIONAL" [1; 0; 0]%Q] []
             (mk_amp "B" box2 "PROPORTIONAL" [1; 1; 0]%Q) true 1 1 0 []).
    + reflexivity.
    + reflexivity.
    + reflexivity.
    + reflexivity.
    + intros H; apply Qeq_bool_iff in H; vm_compute in H; discriminate.
  - intros H; apply Qeq_bool_iff in H; vm_compute in H; discriminate.
Defined.

End LinearizeFacts.

(** ** IsrTask: theorems *)

Module IsrFacts.

Import Linearize Isr.


(** C3 (code bug): [biasCorrection] reads the unbound names [sensorRef] and
    [ccdExp], and [updateVariance] the unbound [ccdExp]: both raise
    [NameError] before touching the exposure, for every exposure, data
    handle and detector. *)
Theorem bias_and_variance_raise_NameError
    (isr_bc : MaskedImage -> MaskedImage -> MaskedImage)
    (isr_uv : MaskedImage -> Q -> Q -> MaskedImage)
    (dataRef : DataRef) (ccd : DetectorObj) (w : World) :
  biasCorrection isr_bc dataRef w = (Err (NameError "sensorRef"), w) /\
  updateVariance isr_uv ccd w = (Err (NameError "ccdExp"), w).
Proof. split; reflexivity. Qed.

(** C7: given a detector object that is not an amplifier, the amplifier-only
    helpers raise "This method must be executed on an amp." and leave the
    state as it was; given an amplifier they do not raise that error. *)
Theorem amp_only_helpers_check (cfg : IsrTaskConfig)
    (mk : MaskedImage -> Q -> Z -> string -> MaskedImage)
    (sc : MaskedImage -> Q -> Q -> Z -> string -> MaskedImage)
    (oc : MaskedImage -> Image -> string -> Z -> MaskedImage)
    (sub : Image -> Box2I -> option Image)
    (det : DetectorObj) (w : World) :
  (checkIsAmp det = false ->
     saturationDetection cfg mk det w = (Err amp_error, w) /\
     saturationCorrection cfg sc det w = (Err amp_error, w) /\
     overscanCorrection cfg oc sub det w = (Err amp_error, w)) /\
  (checkIsAmp det = true ->
     fst (saturationDetection cfg mk det w) = Ok tt /\
     fst (saturationCorrection cfg sc det w) = Ok tt /\
     fst (overscanCorrection cfg oc sub det w) <> Err amp_error).
Proof.
  split.
  - intros H; unfold saturationDetection, saturationCorrection, overscanCorrection;
      rewrite H; repeat split; reflexivity.
  - intros H; destruct det as [ep bs| |]; try discriminate.
    split; [reflexivity|]; split; [reflexivity|].
    unfold overscanCorrection; cbv [checkIsAmp negb bind getMaskedImage].
    match goal with |- context [sub ?i ?b] => destruct (sub i b) end;
      cbn; discriminate.
Qed.

End IsrFacts.

(** ** ProportionalLinearizeTask: further properties *)

Module LinearizeExtra.

Import Linearize LinearizeProps LinearizeExtraProps MonadFacts LinearizeFacts.

Lemma confined_refl l e : confined l e e.
Proof.
  split; [reflexivity|]; split; [reflexivity|]; split; [reflexivity|].
  split; [intros x y k H; exact H|]; intros x y _; split; reflexivity.
Qed.

Lemma confined_trans l e1 e2 e3 :
  confined l e1 e2 -> confined l e2 e3 -> confined l e1 e3.
Proof.
  intros (B1 & D1 & V1 & M1 & P1) (B2 & D2 & V2 & M2 & P2).
  split; [congruence|]; split; [congruence|]; split; [congruence|].
  split; [intros x y k H; apply M2, M1, H|].
  intros x y H; destruct (P1 x y H), (P2 x y H); split; congruence.
Qed.

Lemma confined_weaken l l' e e' :
  (forall x y, in_some_amp l' x y = false -> in_some_amp l x y = false) ->
  confined l e e' -> confined l' e e'.
Proof.
  intros Hl (B & D & V & Mk & P).
  split; [exact B|]; split; [exact D|]; split; [exact V|]; split; [exact Mk|].
  intros x y H; apply (P x y (Hl x y H)).
Qed.

Lemma footprint_confined a t e :
  confined [a] e (footprintSet_suspect e (amp_bbox a) t).
Proof.
  split; [reflexivity|]; split; [reflexivity|]; split; [reflexivity|].
  cbn [footprintSet_suspect with_mask exp_mask exp_image]; split.
  - intros x y k H.
    destruct (box_contains _ x y && Qlt_bool t _); [|exact H].
    rewrite Z.setbit_iff by (unfold SUSPECT_bit; lia); right; exact H.
  - intros x y H; split; [reflexivity|]; unfold in_some_amp in H; simpl in H.
    rewrite orb_false_r in H; rewrite H; reflexivity.
Qed.

Lemma scale_confined a s e : confined [a] e (scale_amp e (amp_bbox a) s).
Proof.
  split; [reflexivity|]; split; [reflexivity|]; split; [reflexivity|].
  cbn [scale_amp with_image exp_mask exp_image]; split; [intros x y k H; exact H|].
  intros x y H; split; [|reflexivity]; unfold in_some_amp in H; simpl in H.
  rewrite orb_false_r in H; rewrite H; reflexivity.
Qed.

Lemma amp_step_confined a w :
  confined [a] (w_exposure w) (w_exposure (snd (amp_step a w))).
Proof.
  unfold amp_step, unpack3.
  destruct (firstn 3 (amp_linearityCoeffs a)) as [|s [|c1 [|t [|? ?]]]];
    try apply confined_refl.
  cbv [bind ret get put raise].
  destruct (negb (Qeq_bool c1 0)); [apply confined_refl|].
  destruct (Qle_bool t 0 && Qeq_bool s 0); [apply confined_refl|].
  destruct (negb (box_within _ _)); [apply confined_refl|].
  cbn [snd set_exposure w_exposure].
  destruct (Qlt_bool 0 t), (negb (Qeq_bool s 0)).
  - eapply confined_trans; [apply footprint_confined|apply scale_confined].
  - apply footprint_confined.
  - apply scale_confined.
  - apply confined_refl.
Qed.

Lemma run_amps_confined amps :
  forall b w, confined amps (w_exposure w) (w_exposure (snd (run_amps amps b w))).
Proof.
  induction amps as [|a r IH]; intros b w; [apply confined_refl|].
  simpl; unfold bind.
  pose proof (amp_step_confined a w) as Ha.
  destruct (amp_step a w) as [[c|err] w1]; simpl in Ha.
  - apply confined_trans with (w_exposure w1).
    + eapply confined_weaken; [|exact Ha].
      intros x y H; unfold in_some_amp in *; simpl in *.
      apply orb_false_iff in H as [H _]; rewrite H; reflexivity.
    + eapply confined_weaken; [|apply IH].
      intros x y H; unfold in_some_amp in *; simpl in *.
      apply orb_false_iff in H as [_ H]; exact H.
  - eapply confined_weaken; [|exact Ha].
    intros x y H; unfold in_some_amp in *; simpl in *.
    apply orb_false_iff in H as [H _]; rewrite H; reflexivity.
Qed.

(** [run] changes nothing but image and mask pixels inside the detector's
    amplifier boxes, changes the mask only by setting bits, and never
    touches the variance plane, whatever the coefficients and also when it
    raises. *)
Theorem run_confined_to_amps (w : World) :
  confined (exp_detector (w_exposure w)) (w_exposure w) (w_exposure (snd (run w))).
Proof.
  unfold run; cbv [bind get]; rewrite doCorrect_result.
  destruct (fst (doCorrect (exp_detector (w_exposure w)) w)) as [[|]|err];
    cbv beta iota; [|apply confined_refl|apply confined_refl].
  change (negb true) with false; cbv beta iota.
  pose proof (run_amps_confined (exp_detector (w_exposure w)) false w) as H.
  destruct (run_amps (exp_detector (w_exposure w)) false w) as [[[|]|err] w'];
    exact H.
Qed.

(** An amplifier with fewer than three linearity coefficients makes the
    loop of [run] raise [ValueError] (the unpacking of [coeffs[0:3]])
    without changing anything. *)
Theorem amp_step_too_few_coeffs (a : Amp) (w : World) :
  (length (amp_linearityCoeffs a) < 3)%nat ->
  amp_step a w = (Err (ValueError "not enough values to unpack"), w).
Proof.
  intros Hl; unfold amp_step, unpack3.
  destruct (amp_linearityCoeffs a) as [|x [|y [|z l]]]; simpl in Hl;
    try reflexivity; lia.
Qed.

Lemma amp_step_too_few_coeffs_witness :
  amp_step (mk_amp "B" box2 "PROPORTIONAL" [1; 0]%Q) (mk_world []) =
  (Err (ValueError "not enough values to unpack"), mk_world []).
Proof. apply amp_step_too_few_coeffs; simpl; lia. Defined.

(** An amplifier with work to do whose box does not fit in the exposure
    makes [run]'s loop raise the framework's [LengthError] before any
    change. *)
Theorem amp_step_box_outside (a : Amp) (s c1 t : Q) (rest : list Q) (w : World) :
  amp_linearityCoeffs a = s :: c1 :: t :: rest -> (c1 == 0)%Q ->
  (0 < t \/ ~ s == 0)%Q ->
  box_within (amp_bbox a) (exp_bbox (w_exposure w)) = false ->
  amp_step a w =
    (Err (LengthError "sub-image box does not fit in the exposure"), w).
Proof.
  intros Hc H1 Hw Hb; unfold amp_step, unpack3; rewrite Hc; cbn [firstn].
  cbv [bind ret get put raise].
  apply Qeq_bool_iff in H1; rewrite H1; simpl negb; cbv iota.
  assert (Hsk : Qle_bool t 0 && Qeq_bool s 0 = false).
  { destruct Hw as [Ht|Hs].
    - rewrite (Qle_bool_false t 0 Ht); reflexivity.
    - rewrite (Qeq_bool_false s 0 Hs), andb_false_r; reflexivity. }
  rewrite Hsk; change (negb true) with false; cbv beta iota; rewrite Hb; reflexivity.
Qed.

Lemma amp_step_box_outside_witness :
  amp_step (mk_amp "C" {| box_minX := 5; box_minY := 0; box_width := 1;
                          box_height := 1 |} "PROPORTIONAL" [1; 0; 0]%Q)
    (mk_world []) =
  (Err (LengthError "sub-image box does not fit in the exposure"), mk_world []).
Proof.
  apply (amp_step_box_outside _ 1 0 0 []); try reflexivity.
  right; intros H; apply Qeq_bool_iff in H; vm_compute in H; discriminate.
Defined.

(** With [squareCoeff = 0] and [maxUncorr > 0] an amplifier is only
    flagged: pixels above [maxUncorr] get SUSPECT, no pixel value changes. *)
Theorem amp_step_flag_only (a : Amp) (s c1 t : Q) (rest : list Q) (w : World) :
  amp_linearityCoeffs a = s :: c1 :: t :: rest -> (s == 0)%Q -> (c1 == 0)%Q ->
  (0 < t)%Q -> box_within (amp_bbox a) (exp_bbox (w_exposure w)) = true ->
  amp_step a w =
    (Ok true, set_exposure w (footprintSet_suspect (w_exposure w) (amp_bbox a) t)).
Proof.
  intros Hc Hs H1 Ht Hb; unfold amp_step, unpack3; rewrite Hc; cbn [firstn].
  cbv [bind ret get put raise].
  apply Qeq_bool_iff in H1, Hs; rewrite H1, Hs, (Qle_bool_false t 0 Ht).
  cbn [andb negb]; rewrite Hb.
  rewrite (proj2 (Qlt_bool_iff 0 t) Ht); reflexivity.
Qed.

Lemma amp_step_flag_only_witness :
  amp_step (mk_amp "A" box1 "PROPORTIONAL" [0; 0; 2]%Q) (mk_world []) =
  (Ok true, set_exposure (mk_world [])
     (footprintSet_suspect (w_exposure (mk_world [])) box1 2)).
Proof.
  apply (amp_step_flag_only (mk_amp "A" box1 "PROPORTIONAL" [0; 0; 2]%Q) 0 0 2 []);
    reflexivity.
Defined.

(** With [squareCoeff <> 0] and [maxUncorr <= 0] an amplifier is only
    scaled: each value [v] in its box becomes [v*(1+squareCoeff*v)] and no
    mask bit is set. *)
Theorem amp_step_scale_only (a : Amp) (s c1 t : Q) (rest : list Q) (w : World) :
  amp_linearityCoeffs a = s :: c1 :: t :: rest -> ~ (s == 0)%Q -> (c1 == 0)%Q ->
  (t <= 0)%Q -> box_within (amp_bbox a) (exp_bbox (w_exposure w)) = true ->
  amp_step a w =
    (Ok true, set_exposure w (scale_amp (w_exposure w) (amp_bbox a) s)).
Proof.
  intros Hc Hs H1 Ht Hb; unfold amp_step, unpack3; rewrite Hc; cbn [firstn].
  cbv [bind ret get put raise].
  apply Qeq_bool_iff in H1; rewrite H1, (Qeq_bool_false s 0 Hs), andb_false_r.
  cbn [andb negb]; rewrite Hb.
  rewrite (Qlt_bool_false 0 t Ht); reflexivity.
Qed.

Lemma amp_step_scale_only_witness :
  amp_step (mk_amp "A" box1 "PROPORTIONAL" [1; 0; -1]%Q) (mk_world []) =
  (Ok true, set_exposure (mk_world []) (scale_amp (w_exposure (mk_world [])) box1 1)).
Proof.
  apply (amp_step_scale_only (mk_amp "A" box1 "PROPORTIONAL" [1; 0; -1]%Q)
           1 0 (-1) []); try reflexivity.
  - intros H; apply Qeq_bool_iff in H; vm_compute in H; discriminate.
  - apply Qle_bool_iff; reflexivity.
Defined.

(** When the first amplifier's linearity type is neither NONE nor
    PROPORTIONAL, [run] raises the unsupported-type error and changes
    nothing, whatever the other amplifiers are. *)
Theorem run_unsupported_type (w : World) (a : Amp) (rest : Detector) :
  exp_detector (w_exposure w) = a :: rest ->
  amp_linearityType a <> "NONE"%string ->
  amp_linearityType a <> "PROPORTIONAL"%string ->
  run w = (Err (RuntimeError "Unsupported linearity type"), w).
Proof.
  intros Hd H1 H2; unfold run; cbv [bind get]; rewrite Hd; simpl doCorrect.
  apply String.eqb_neq in H1, H2; rewrite H1, H2; reflexivity.
Qed.

Lemma run_unsupported_type_witness :
  run (mk_world [mk_amp "A" box1 "SQUARED" [1; 0; 0]%Q]) =
  (Err (RuntimeError "Unsupported linearity type"),
   mk_world [mk_amp "A" box1 "SQUARED" [1; 0; 0]%Q]).
Proof.
  apply (run_unsupported_type _ (mk_amp "A" box1 "SQUARED" [1; 0; 0]%Q) []);
    [reflexivity|discriminate|discriminate].
Defined.

End LinearizeExtra.

(** ** IsrTask.run: theorems *)

Module IsrRunFacts.

Import Linearize Isr IsrRun.

Lemma biasCorrection_raises f dr w :
  biasCorrection f dr w = (Err (NameError "sensorRef"), w).
Proof. reflexivity. Qed.

Lemma try_finally_err {S A} (m : M S A) (fin : M S unit) s :
  (exists e, fst (m s) = Err e) -> exists e, fst (try_finally m fin s) = Err e.
Proof.
  intros [e He]; unfold try_finally.
  destruct (m s) as [r s1]; simpl in He; subst r.
  destruct (fin s1) as [[[]|e'] s2]; eexists; reflexivity.
Qed.

Lemma run_body_raises env sensorRef w :
  exists e, fst (run_body env sensorRef w) = Err e.
Proof.
  unfold run_body; cbv [bind].
  destruct (env_logStart env sensorRef w) as [[[]|e] s1]; [|eexists; reflexivity].
  match goal with |- context [env_getRaw env sensorRef ?s] =>
    destruct (env_getRaw env sensorRef s) as [[raw|e] s2] end; [|eexists; reflexivity].
  match goal with |- context [env_ccdOf env raw ?s] =>
    destruct (env_ccdOf env raw s) as [[ccd|e] s3] end; [|eexists; reflexivity].
  match goal with |- context [env_floatImageFromInt env raw ?s] =>
    destruct (env_floatImageFromInt env raw s) as [[ccdExp|e] s4] end; [|eexists; reflexivity].
  cbv [setExposure].
  match goal with |- context [env_ampBoxes env ccd ?s] =>
    destruct (env_ampBoxes env ccd s) as [[boxes|e] s5] end; [|eexists; reflexivity].
  match goal with |- context [amp_loop env boxes ?s] =>
    destruct (amp_loop env boxes s) as [[[]|e] s6] end; [|eexists; reflexivity].
  rewrite biasCorrection_raises; eexists; reflexivity.
Qed.

(** [IsrTask.run] never returns an exposure and so never persists one: for
    every data handle, every behaviour of the framework routines it calls
    (including [sensorRef.get('raw')], the casts and [floatImageFromInt]
    raising) and every behaviour of the [timeMethod] wrapper's logging, it
    raises. *)
Theorem isr_run_always_raises (env : IsrEnv) (sensorRef : DataRef) (w : World) :
  exists e, fst (run env sensorRef w) = Err e.
Proof.
  unfold run; cbv [bind].
  destruct (env_timeStart env w) as [[[]|e] w1]; [|eexists; reflexivity].
  apply try_finally_err, run_body_raises.
Qed.

End IsrRunFacts.
